(** * TinyVM: a shallow embedding of [TinyVM/main.cpp]

    The program is the skeleton of an LC-3 simulator: a 65536-cell memory of
    16-bit words, a register file of ten 16-bit registers, an image loader,
    memory-mapped keyboard registers and a fetch loop whose opcode cases are
    all empty.  Every [uint16_t] is a [Z] in [0, 65536) with the truncation
    written as [wrap16]; the global [memory] array is a finite map with
    absent cells reading 0 (static storage is zero-initialised); the global
    [reg] array is a list indexed by the register enumeration. *)

From Stdlib Require Import ZArith Lia List String Ascii Strings.Byte.
From stdpp Require Import base option list gmap.
Import ListNotations.

Local Open Scope Z_scope.

(** ** Machine words *)

(** Conversion of an [int] to [uint16_t]. *)
Definition wrap16 (z : Z) : Z := z mod 65536.

(** ** Hardware data *)

Definition MEMORY_MAX : Z := 65536.

(** Registers: the anonymous enumeration indexing [reg]. *)
Definition R_R0 : nat := 0.
Definition R_R1 : nat := 1.
Definition R_R2 : nat := 2.
Definition R_R3 : nat := 3.
Definition R_R4 : nat := 4.
Definition R_R5 : nat := 5.
Definition R_R6 : nat := 6.
Definition R_R7 : nat := 7.
Definition R_PC : nat := 8.
Definition R_COND : nat := 9.
Definition R_COUNT : nat := 10.

(** Opcodes. *)
Definition OP_BR : Z := 0.
Definition OP_ADD : Z := 1.
Definition OP_LD : Z := 2.
Definition OP_ST : Z := 3.
Definition OP_JSR : Z := 4.
Definition OP_AND : Z := 5.
Definition OP_LDR : Z := 6.
Definition OP_STR : Z := 7.
Definition OP_RTI : Z := 8.
Definition OP_NOT : Z := 9.
Definition OP_LDI : Z := 10.
Definition OP_STI : Z := 11.
Definition OP_JMP : Z := 12.
Definition OP_RES : Z := 13.
Definition OP_LEA : Z := 14.
Definition OP_TRAP : Z := 15.

(** Condition flags. *)
Definition FL_POS : Z := Z.shiftl 1 0.
Definition FL_ZRO : Z := Z.shiftl 1 1.
Definition FL_NEG : Z := Z.shiftl 1 2.

(** Memory mapped registers. *)
Definition MR_KBSR : Z := 0xFE00.
Definition MR_KBDR : Z := 0xFE02.

(** [PC_START], the enumeration local to [main]. *)
Definition PC_START : Z := 0x3000.

(** ** Memory and register file *)

(** [uint16_t memory[MEMORY_MAX]]: cell [a] is [m !! a], 0 when never
    written. *)
Definition cell (m : gmap Z Z) (a : Z) : Z := default 0 (m !! a).

(** [uint16_t reg[R_COUNT]]: the indices used by the program are the
    enumeration constants, all below [R_COUNT]. *)
Definition reg_get (r : list Z) (i : nat) : Z := default 0 (r !! i).

(** ** Keyboard *)

(** What the console answers when [mem_read] polls it: [None] when
    [check_key()] returns 0, [Some c] when it returns nonzero and the
    [getchar()] that follows returns the [int] [c]. *)
Definition poll : Type := option Z.

(** ** Memory reading / writing *)

Definition mem_write (m : gmap Z Z) (address val : Z) : gmap Z Z :=
  <[address := val]> m.

(** [mem_read] returns the word read and the memory it leaves behind; the
    console is consulted only for [MR_KBSR]. *)
Definition mem_read (kbd : poll) (m : gmap Z Z) (address : Z) : Z * gmap Z Z :=
  let m' :=
    if address =? MR_KBSR then
      match kbd with
      | Some c => <[MR_KBDR := wrap16 c]> (<[MR_KBSR := Z.shiftl 1 15]> m)
      | None => <[MR_KBSR := 0]> m
      end
    else m in
  (cell m' address, m').

(** ** Reading LC-3 programs into memory *)

Definition swap16 (x : Z) : Z :=
  wrap16 (Z.lor (Z.shiftl x 8) (Z.shiftr x 8)).

Definition byte_val (b : byte) : Z := Z.of_N (Byte.to_N b).

(** The [uint16_t] that two consecutive bytes of a buffer form on the
    little-endian host the program is written for: the first byte is the
    low one. *)
Definition native_word (b0 b1 : byte) : Z :=
  Z.lor (byte_val b0) (Z.shiftl (byte_val b1) 8).

(** [fread(buf, sizeof(uint16_t), count, file)] on a stream whose unread
    bytes are [file]: the complete items read, as native words; the byte of
    a trailing partial item, when the stream ends on a single byte while
    items are still wanted (it is copied into the buffer but is no item and
    is not counted in the result); and the bytes left unread. *)
Fixpoint fread (file : list byte) (count : Z)
  : list Z * option byte * list byte :=
  match file with
  | b0 :: b1 :: file' =>
      if 0 <? count then
        let '(ws, partial, rest) := fread file' (count - 1) in
        (native_word b0 b1 :: ws, partial, rest)
      else ([], None, file)
  | [b] => if 0 <? count then ([], Some b, []) else ([], None, file)
  | [] => ([], None, [])
  end.

(** The items [fread] delivers land in consecutive cells from [p] on. *)
Fixpoint store_words (p : Z) (ws : list Z) (m : gmap Z Z) : gmap Z Z :=
  match ws with
  | [] => m
  | w :: ws' => store_words (p + 1) ws' (<[p := w]> m)
  end.

(** The byte of a partial item lands in the first byte of the cell after
    the items, the low byte on the little-endian host; the other byte of
    that cell keeps what it held. *)
Definition store_partial (p : Z) (partial : option byte) (m : gmap Z Z)
  : gmap Z Z :=
  match partial with
  | Some b => <[p := Z.lor (Z.land (cell m p) 0xFF00) (byte_val b)]> m
  | None => m
  end.

(** The [while (read-- > 0)] loop: the cell under [p] is replaced by its
    [swap16] and [p] moves to the next cell. *)
Fixpoint swap_cells (read : nat) (p : Z) (m : gmap Z Z) : gmap Z Z :=
  match read with
  | O => m
  | S read' => swap_cells read' (p + 1) (<[p := swap16 (cell m p)]> m)
  end.

(** [read_image_file].  When the stream is too short to hold the origin
    word, [origin] keeps an indeterminate value and the second [fread]
    finds the stream at its end, so no cell is written whatever that value
    is.  The cell a partial item touches is not among the [read] cells the
    loop swaps. *)
Definition read_image_file (file : list byte) (m : gmap Z Z) : gmap Z Z :=
  match fread file 1 with
  | ([raw], _, rest) =>
      let origin := swap16 raw in
      let max_read := wrap16 (MEMORY_MAX - origin) in
      let '(ws, partial, _) := fread rest max_read in
      swap_cells (length ws) origin
        (store_partial (origin + Z.of_nat (length ws)) partial
           (store_words origin ws m))
  | _ => m
  end.

(** The files the program can open: [fs path = None] when [fopen] fails. *)
Definition filesystem : Type := string -> option (list byte).

(** [read_image]: [None] is the return value 0 (memory untouched), [Some m']
    the return value 1 with the memory the load leaves. *)
Definition read_image (fs : filesystem) (image_path : string) (m : gmap Z Z)
  : option (gmap Z Z) :=
  match fs image_path with
  | None => None
  | Some file => Some (read_image_file file m)
  end.

(** ** The simulator state seen by [main] *)

Record state : Type := mkState {
  memory : gmap Z Z;      (* the global [memory] *)
  reg : list Z;           (* the global [reg] *)
  running : Z;            (* the local [running] of [main] *)
  stdout : string         (* what has been printed *)
}.

(** How [main] gets to its loop, or does not. *)
Inductive startup : Type :=
| Exited (status : Z) (printed : string)
| Entered (s : state).

Definition newline : string := String (ascii_of_nat 10) EmptyString.

Definition usage_message : string :=
  String.append "lc3 [image-file1] ..." newline.

Definition load_failure_message (image_path : string) : string :=
  String.append "failed to load image: " (String.append image_path newline).

(** [for (int j = 1; j < argc; j++) if (!read_image(argv[j])) ...]:
    [inl p] when [argv[j] = p] is the first image that fails to load. *)
Fixpoint load_images (fs : filesystem) (paths : list string) (m : gmap Z Z)
  : string + gmap Z Z :=
  match paths with
  | [] => inr m
  | p :: paths' =>
      match read_image fs p m with
      | None => inl p
      | Some m' => load_images fs paths' m'
      end
  end.

(** The state in which the loop is entered, given the loaded memory: [reg]
    is zero-initialised static storage, then [R_COND] and [R_PC] are set. *)
Definition initial_state (m : gmap Z Z) : state :=
  {| memory := m;
     reg := <[R_PC := PC_START]> (<[R_COND := FL_ZRO]> (replicate R_COUNT 0));
     running := 1;
     stdout := EmptyString |}.

(** [main] up to the [while]: [argv] includes the program name, so
    [argc = length argv]. *)
Definition main_startup (fs : filesystem) (argv : list string) : startup :=
  if (Z.of_nat (length argv) <? 2) then Exited 2 usage_message
  else
    match load_images fs (drop 1 argv) ∅ with
    | inl p => Exited 1 (load_failure_message p)
    | inr m => Entered (initial_state m)
    end.

(** ** The execution loop *)

(** The [switch (op)]: every case is a bare [break]. *)
Definition execute (op : Z) (s : state) : state :=
  if op =? OP_ADD then s
  else if op =? OP_AND then s
  else if op =? OP_NOT then s
  else if op =? OP_BR then s
  else if op =? OP_JMP then s
  else if op =? OP_JSR then s
  else if op =? OP_LD then s
  else if op =? OP_LDI then s
  else if op =? OP_LDR then s
  else if op =? OP_LEA then s
  else if op =? OP_ST then s
  else if op =? OP_STI then s
  else if op =? OP_STR then s
  else if op =? OP_TRAP then s
  else (* OP_RES, OP_RTI, default: opcode did not exist *) s.

(** The word [mem_read(reg[R_PC]++)] returns. *)
Definition fetch (kbd : poll) (s : state) : Z :=
  fst (mem_read kbd (memory s) (reg_get (reg s) R_PC)).

(** [op = instr >> 12]. *)
Definition opcode (instr : Z) : Z := Z.shiftr instr 12.

(** One pass through the body of the [while]. *)
Definition step (kbd : poll) (s : state) : state :=
  let pc := reg_get (reg s) R_PC in
  let r' := <[R_PC := wrap16 (pc + 1)]> (reg s) in
  let '(instr, m') := mem_read kbd (memory s) pc in
  execute (opcode instr)
    {| memory := m'; reg := r'; running := running s; stdout := stdout s |}.

(** Where the loop stands after the console has answered a finite number of
    iterations. *)
Inductive loop_result : Type :=
| Returned (s : state)        (* [running] was 0 at a test: the loop is left *)
| StillRunning (s : state).   (* the loop is about to start another pass *)

(** [while (running) { ... }], one console answer per iteration. *)
Fixpoint main_loop (kbds : list poll) (s : state) : loop_result :=
  if running s =? 0 then Returned s
  else
    match kbds with
    | [] => StillRunning s
    | k :: kbds' => main_loop kbds' (step k s)
    end.

(** [main] as a whole, observed after the console has answered [kbds]:
    either the process has ended with a status and its output, or it is
    still in the loop.  Leaving the loop leads to [return 0].  What a
    signal does to the process ([handle_interrupt] on SIGINT) is not part
    of this function. *)
Inductive run_result : Type :=
| Finished (status : Z) (printed : string)
| Unfinished (s : state).

Definition main (fs : filesystem) (argv : list string) (kbds : list poll)
  : run_result :=
  match main_startup fs argv with
  | Exited status printed => Finished status printed
  | Entered s =>
      match main_loop kbds s with
      | Returned s' => Finished 0 (stdout s')
      | StillRunning s' => Unfinished s'
      end
  end.

(** The words fetched by the iterations [main_loop] performs, in order. *)
Fixpoint fetched (kbds : list poll) (s : state) : list Z :=
  if running s =? 0 then []
  else
    match kbds with
    | [] => []
    | k :: kbds' => fetch k s :: fetched kbds' (step k s)
    end.

(** States the program can be in at the loop test. *)
Inductive reachable : state -> Prop :=
| reachable_entry (m : gmap Z Z) : reachable (initial_state m)
| reachable_step (k : poll) (s : state) :
    reachable s -> running s <> 0 -> reachable (step k s).

(** ** Notions of the specification that the program does not define *)

(** Modelled from the spec: the decoder's sign extension, missing from the
    program (it has no decoder).  "Given a field of width [n], if bit [n-1]
    is 1, the value is extended by setting all higher bits to 1", the value
    being a 16-bit word. *)
Definition sign_extend (x n : Z) : Z :=
  if Z.testbit x (n - 1) then Z.lor x (Z.shiftl (Z.ones (16 - n)) n) else x.

(** The two's-complement reading of an [n]-bit pattern. *)
Definition twos_complement (n x : Z) : Z :=
  if x <? 2 ^ (n - 1) then x else x - 2 ^ n.

(** Modelled from the spec: the flag [update_flags] derives from a register
    value, missing from the program.  "NEG if value's high bit is set, ZRO
    if value == 0, POS otherwise." *)
Definition flag_of (v : Z) : Z :=
  if Z.testbit v 15 then FL_NEG else if v =? 0 then FL_ZRO else FL_POS.

(** Modelled from the spec: the operand fields of an instruction word in
    the LC-3 encoding the specification refers to; the program extracts
    none of them. *)
Definition field_dr (instr : Z) : nat := Z.to_nat (Z.land (Z.shiftr instr 9) 7).
Definition field_sr1 (instr : Z) : nat := Z.to_nat (Z.land (Z.shiftr instr 6) 7).
Definition field_sr2 (instr : Z) : nat := Z.to_nat (Z.land instr 7).
Definition field_imm_flag (instr : Z) : Z := Z.land (Z.shiftr instr 5) 1.
Definition field_imm5 (instr : Z) : Z := sign_extend (Z.land instr 0x1F) 5.
Definition trap_vector (instr : Z) : Z := Z.land instr 0xFF.

(** Modelled from the spec: the trap vectors of its dispatcher table. *)
Definition TRAP_GETC : Z := 0x20.
Definition TRAP_HALT : Z := 0x25.

(** Modelled from the spec: what ADD is specified to leave in its
    destination register. *)
Definition add_result (instr : Z) (r : list Z) : Z :=
  wrap16 (reg_get r (field_sr1 instr)
          + (if field_imm_flag instr =? 1 then field_imm5 instr
             else reg_get r (field_sr2 instr))).


(** ** Auxiliary notions for the statements *)

(** The value of a 16-bit big-endian word given by its two bytes. *)
Definition be_word (hi lo : byte) : Z := 256 * byte_val hi + byte_val lo.

(** The byte stream of a sequence of words, each as its two bytes. *)
Definition stream_of (pairs : list (byte * byte)) : list byte :=
  flat_map (fun pr => [fst pr; snd pr]) pairs.

(** Whether [fopen] succeeds on a path. *)
Definition readable (fs : filesystem) (p : string) : bool :=
  match fs p with Some _ => true | None => false end.

(** Nothing the program does writes R0-R7 or [R_COND] after entry. *)
Definition registers_idle (s : state) : Prop :=
  length (reg s) = R_COUNT
  /\ (forall i : nat, (i <= R_R7)%nat -> reg_get (reg s) i = 0)
  /\ reg_get (reg s) R_COND = FL_ZRO
  /\ running s = 1
  /\ stdout s = EmptyString.

(** The instructions the specification calls unsupported: RES, RTI, and a
    TRAP whose vector is not one of 0x20..0x25. *)
Definition unsupported (instr : Z) : bool :=
  (opcode instr =? OP_RES) || (opcode instr =? OP_RTI)
  || ((opcode instr =? OP_TRAP)
      && negb ((TRAP_GETC <=? trap_vector instr)
               && (trap_vector instr <=? TRAP_HALT))).

(** ** Concrete programs used as examples *)

(** A file system holding the one image [prog.obj]. *)
Definition image_fs (image : list byte) : filesystem :=
  fun p => if String.eqb p "prog.obj" then Some image else None.

Definition image_argv : list string := ["lc3"; "prog.obj"]%string.

(** The state in which [main] enters its loop after loading that image. *)
Definition entry_state (image : list byte) : state :=
  initial_state (read_image_file image ∅).

(** Origin 0x3000, then 0xF025 (TRAP HALT) and 0x1021 (ADD R0, R0, #1). *)
Definition halt_image : list byte := [x30; x00; xf0; x25; x10; x21].

(** Origin 0x3000, then 0x1021 (ADD R0, R0, #1). *)
Definition add_image : list byte := [x30; x00; x10; x21].

(** Origin 0x3000, then 0xD000 (RES) and 0xF0FF (TRAP with vector 0xFF). *)
Definition reserved_image : list byte := [x30; x00; xd0; x00; xf0; xff].

(** Origin 0, then the word 0x1234. *)
Definition origin_zero_image : list byte := [x00; x00; x12; x34].

(** The scenario of the specification: R1 holds 5, the flag register ZRO,
    and the word at the program counter is 0x127F, ADD R1, R1, #-1. *)
Definition add_scenario : state :=
  {| memory := {[ PC_START := 0x127F ]};
     reg := [0; 5; 0; 0; 0; 0; 0; 0; PC_START; FL_ZRO];
     running := 1;
     stdout := EmptyString |}.


(** ** Further notions: iterating the loop, load order *)

(** The state after the loop body has run once per console answer. *)
Definition run_steps (kbds : list poll) (s : state) : state :=
  fold_left (fun s' k => step k s') kbds s.

(** Being a value of type [uint16_t]. *)
Definition word16 (z : Z) : Prop := 0 <= z < 65536.

(** The memory the [for] loop of [main] builds when every [read_image]
    succeeds: the images are laid over one another in command-line order. *)
Definition load_all (fs : filesystem) (paths : list string) (m : gmap Z Z)
  : gmap Z Z :=
  fold_left
    (fun m' p => match fs p with
                 | Some file => read_image_file file m'
                 | None => m'
                 end)
    paths m.

(** An image as the bytes of its origin word followed by those of its
    words. *)
Definition image_bytes (hi lo : byte) (pairs : list (byte * byte)) : list byte :=
  hi :: lo :: stream_of pairs.

(** ** Input buffering on the console *)

(** The console behind standard input, as the program uses it: its input
    mode word and the characters waiting in its input buffer. *)
Record console : Type := mkConsole {
  console_mode : Z;
  console_pending : list Z
}.

(** The globals [hStdin], [fdwMode], [fdwOldMode].  [hStdin] starts as
    [INVALID_HANDLE_VALUE] ([false]) and the two mode words as 0. *)
Record buffering : Type := mkBuffering {
  hStdin : bool;
  fdwMode : Z;
  fdwOldMode : Z
}.

Definition buffering_start : buffering :=
  {| hStdin := false; fdwMode := 0; fdwOldMode := 0 |}.

Section ConsoleMode.

(** The two mode bits of the platform header, which the repository does not
    contain. *)
Variables ENABLE_ECHO_INPUT ENABLE_LINE_INPUT : Z.

(** [disable_input_buffering], for a process whose standard input is a
    console, so that [GetStdHandle], [GetConsoleMode] and [SetConsoleMode]
    succeed: the old mode is saved, the mode with both bits xor-ed in is
    set, and the input buffer is flushed. *)
Definition disable_input_buffering (g : buffering) (c : console)
  : buffering * console :=
  let old := console_mode c in
  let new := Z.lxor (Z.lxor old ENABLE_ECHO_INPUT) ENABLE_LINE_INPUT in
  ({| hStdin := true; fdwMode := new; fdwOldMode := old |},
   {| console_mode := new; console_pending := [] |}).

End ConsoleMode.

(** [restore_input_buffering]: [SetConsoleMode(hStdin, fdwOldMode)], which
    fails and changes nothing while [hStdin] is still the invalid handle. *)
Definition restore_input_buffering (g : buffering) (c : console) : console :=
  if hStdin g
  then {| console_mode := fdwOldMode g; console_pending := console_pending c |}
  else c.

(** * Properties *)

(** ** The memory subsystem *)

Lemma cell_insert_eq (m : gmap Z Z) (a v : Z) : cell (<[a := v]> m) a = v.
Proof. unfold cell. by rewrite lookup_insert_eq. Qed.

Lemma cell_insert_ne (m : gmap Z Z) (a b v : Z) :
  a <> b -> cell (<[a := v]> m) b = cell m b.
Proof. intros Hab. unfold cell. by rewrite lookup_insert_ne. Qed.

Lemma mem_read_plain (k : poll) (m : gmap Z Z) (a : Z) :
  a <> MR_KBSR -> mem_read k m a = (cell m a, m).
Proof.
  intros Ha. unfold mem_read.
  destruct (Z.eqb_spec a MR_KBSR) as [E | _]; [contradiction | reflexivity].
Qed.

Lemma mem_read_key (c : Z) (m : gmap Z Z) :
  mem_read (Some c) m MR_KBSR
  = (Z.shiftl 1 15, <[MR_KBDR := wrap16 c]> (<[MR_KBSR := Z.shiftl 1 15]> m)).
Proof.
  unfold mem_read. rewrite Z.eqb_refl. f_equal.
  rewrite cell_insert_ne by discriminate. apply cell_insert_eq.
Qed.

Lemma mem_read_no_key (m : gmap Z Z) :
  mem_read None m MR_KBSR = (0, <[MR_KBSR := 0]> m).
Proof. unfold mem_read. rewrite Z.eqb_refl. f_equal. apply cell_insert_eq. Qed.

(** Whatever is read, only the two keyboard cells can differ afterwards. *)
Lemma mem_read_frame (k : poll) (m : gmap Z Z) (address a : Z) :
  a <> MR_KBSR -> a <> MR_KBDR ->
  snd (mem_read k m address) !! a = m !! a.
Proof.
  intros Hs Hd. unfold mem_read; cbn [snd].
  destruct (address =? MR_KBSR); [| reflexivity].
  destruct k as [c |].
  - rewrite !lookup_insert_ne by congruence. reflexivity.
  - rewrite lookup_insert_ne by congruence. reflexivity.
Qed.

(** C6. [mem_read] at the keyboard-status address 0xFE00 polls the console:
    with a character [c] pending it stores [1 << 15] at 0xFE00 and the
    character's code at 0xFE02 and returns the status cell, with none
    pending it stores 0 at 0xFE00; at any other address [mem_read] returns
    the stored cell and leaves memory alone, and [mem_write] stores its
    value as it is, touching no other cell. *)
Theorem mem_read_write_contract (m : gmap Z Z) (c a b v : Z) (k : poll) :
  0 <= c < 65536 ->
  a <> MR_KBSR ->
  (let '(w, m') := mem_read (Some c) m MR_KBSR in
   w = cell m' MR_KBSR
   /\ cell m' MR_KBSR = Z.shiftl 1 15
   /\ cell m' MR_KBDR = c
   /\ forall x, x <> MR_KBSR -> x <> MR_KBDR -> m' !! x = m !! x)
  /\ (let '(w, m') := mem_read None m MR_KBSR in
      w = cell m' MR_KBSR
      /\ cell m' MR_KBSR = 0
      /\ forall x, x <> MR_KBSR -> m' !! x = m !! x)
  /\ mem_read k m a = (cell m a, m)
  /\ cell (mem_write m b v) b = v
  /\ forall x, x <> b -> mem_write m b v !! x = m !! x.
Proof.
  intros Hc Ha. split; [| split; [| split; [| split]]].
  - rewrite mem_read_key.
    rewrite cell_insert_eq, cell_insert_ne, cell_insert_eq by discriminate.
    repeat split.
    + unfold wrap16. apply Z.mod_small. lia.
    + intros x Hs Hd. rewrite !lookup_insert_ne by congruence. reflexivity.
  - rewrite mem_read_no_key. rewrite cell_insert_eq. repeat split.
    intros x Hs. rewrite lookup_insert_ne by congruence. reflexivity.
  - apply mem_read_plain, Ha.
  - apply cell_insert_eq.
  - intros x Hx. unfold mem_write. rewrite lookup_insert_ne by congruence.
    reflexivity.
Qed.

Lemma mem_read_write_contract_witness :
  0 <= 97 < 65536 /\ 0x3000 <> MR_KBSR
  /\ mem_read (Some 97) ∅ 0x3000 = (cell ∅ 0x3000, ∅)
  /\ cell (mem_write ∅ MR_KBSR 7) MR_KBSR = 7.
Proof.
  assert (Hc : 0 <= 97 < 65536) by lia.
  assert (Ha : 0x3000 <> MR_KBSR) by discriminate.
  destruct (mem_read_write_contract ∅ 97 0x3000 MR_KBSR 7 (Some 97) Hc Ha)
    as (_ & _ & Hr & Hw & _).
  exact (conj Hc (conj Ha (conj Hr Hw))).
Defined.

(** ** One iteration of the execution loop *)

Lemma execute_id (op : Z) (s : state) : execute op s = s.
Proof. unfold execute. repeat (destruct (_ =? _); [reflexivity |]). reflexivity. Qed.

(** The iteration is the fetch and nothing else. *)
Lemma step_unfold (k : poll) (s : state) :
  step k s
  = {| memory := snd (mem_read k (memory s) (reg_get (reg s) R_PC));
       reg := <[R_PC := wrap16 (reg_get (reg s) R_PC + 1)]> (reg s);
       running := running s;
       stdout := stdout s |}.
Proof.
  unfold step. destruct (mem_read k (memory s) (reg_get (reg s) R_PC)) as [w m'].
  apply execute_id.
Qed.

Lemma step_running (k : poll) (s : state) : running (step k s) = running s.
Proof. rewrite step_unfold. reflexivity. Qed.

Lemma step_stdout (k : poll) (s : state) : stdout (step k s) = stdout s.
Proof. rewrite step_unfold. reflexivity. Qed.

Lemma step_reg_length (k : poll) (s : state) :
  length (reg (step k s)) = length (reg s).
Proof. rewrite step_unfold. cbn [reg]. apply length_insert. Qed.

Lemma step_reg_other (k : poll) (s : state) (i : nat) :
  i <> R_PC -> reg (step k s) !! i = reg s !! i.
Proof.
  intros Hi. rewrite step_unfold. cbn [reg].
  apply list_lookup_insert_ne. congruence.
Qed.

Lemma step_pc (k : poll) (s : state) :
  length (reg s) = R_COUNT ->
  reg_get (reg (step k s)) R_PC = wrap16 (reg_get (reg s) R_PC + 1).
Proof.
  intros Hlen. rewrite step_unfold. cbn [reg]. unfold reg_get at 1.
  rewrite list_lookup_insert_eq; [reflexivity |].
  rewrite Hlen. unfold R_PC, R_COUNT. lia.
Qed.

Lemma step_memory_frame (k : poll) (s : state) (a : Z) :
  a <> MR_KBSR -> a <> MR_KBDR -> memory (step k s) !! a = memory s !! a.
Proof.
  intros Hs Hd. rewrite step_unfold. cbn [memory]. by apply mem_read_frame.
Qed.

Lemma step_memory_plain (k : poll) (s : state) :
  reg_get (reg s) R_PC <> MR_KBSR -> memory (step k s) = memory s.
Proof.
  intros Hpc. rewrite step_unfold. cbn [memory].
  rewrite mem_read_plain by exact Hpc. reflexivity.
Qed.

(** While [running] is nonzero, the loop takes the next iteration. *)
Lemma main_loop_cons (k : poll) (kbds : list poll) (s : state) :
  running s <> 0 -> main_loop (k :: kbds) s = main_loop kbds (step k s).
Proof.
  intros Hrun. cbn [main_loop].
  destruct (Z.eqb_spec (running s) 0); [contradiction | reflexivity].
Qed.

Lemma fetched_cons (k : poll) (kbds : list poll) (s : state) :
  running s <> 0 ->
  fetched (k :: kbds) s = fetch k s :: fetched kbds (step k s).
Proof.
  intros Hrun. cbn [fetched].
  destruct (Z.eqb_spec (running s) 0); [contradiction | reflexivity].
Qed.

(** The loop cannot be left from a state whose flag is set: no iteration
    clears it. *)
Lemma main_loop_still_running (kbds : list poll) :
  forall s : state,
    running s <> 0 ->
    exists s', main_loop kbds s = StillRunning s'
               /\ running s' = running s
               /\ length (fetched kbds s) = length kbds.
Proof.
  induction kbds as [| k kbds IH]; intros s Hrun.
  - exists s. cbn. destruct (Z.eqb_spec (running s) 0); [contradiction |].
    repeat split.
  - rewrite main_loop_cons, fetched_cons by exact Hrun.
    destruct (IH (step k s)) as (s' & Hloop & Hr & Hlen).
    { rewrite step_running. exact Hrun. }
    exists s'. rewrite Hloop, Hr, step_running. cbn [length]. rewrite Hlen.
    repeat split.
Qed.

Lemma main_startup_entered (fs : filesystem) (argv : list string) (s : state) :
  main_startup fs argv = Entered s -> exists m, s = initial_state m.
Proof.
  unfold main_startup. destruct (_ <? _); [discriminate |].
  destruct (load_images fs (drop 1 argv) ∅) as [p | m]; [discriminate |].
  intros [= <-]. by exists m.
Qed.

Lemma main_startup_image (image : list byte) :
  main_startup (image_fs image) image_argv = Entered (entry_state image).
Proof. reflexivity. Qed.

Lemma reachable_entry_state (image : list byte) : reachable (entry_state image).
Proof. apply reachable_entry. Qed.


(** C10. One iteration of the execution loop changes at most the program
    counter, which becomes its old value plus 1 modulo 2^16, and the memory
    cells 0xFE00 and 0xFE02 (through the keyboard poll in [mem_read]);
    R0-R7, the condition-flag register and every other memory cell keep
    their contents, as do the running flag and the output. *)
Theorem step_frame (k : poll) (s : state) :
  length (reg s) = R_COUNT ->
  reg_get (reg (step k s)) R_PC = wrap16 (reg_get (reg s) R_PC + 1)
  /\ (forall i : nat, (i <= R_R7)%nat ->
        reg_get (reg (step k s)) i = reg_get (reg s) i)
  /\ reg_get (reg (step k s)) R_COND = reg_get (reg s) R_COND
  /\ (forall a : Z, a <> MR_KBSR -> a <> MR_KBDR ->
        cell (memory (step k s)) a = cell (memory s) a)
  /\ (reg_get (reg s) R_PC <> MR_KBSR -> memory (step k s) = memory s)
  /\ running (step k s) = running s
  /\ stdout (step k s) = stdout s.
Proof.
  intros Hlen. repeat split.
  - by apply step_pc.
  - intros i Hi. unfold reg_get. rewrite step_reg_other; [reflexivity |].
    unfold R_R7, R_PC in *. lia.
  - unfold reg_get. rewrite step_reg_other; [reflexivity | discriminate].
  - intros a Hs Hd. unfold cell. by rewrite step_memory_frame.
  - apply step_memory_plain.
  - apply step_running.
  - apply step_stdout.
Qed.

Lemma step_frame_witness :
  length (reg (entry_state add_image)) = R_COUNT
  /\ reg_get (reg (step None (entry_state add_image))) R_PC
     = 0x3001.
Proof.
  assert (Hlen : length (reg (entry_state add_image)) = R_COUNT)
    by reflexivity.
  split; [exact Hlen |].
  destruct (step_frame None _ Hlen) as (Hpc & _). rewrite Hpc. reflexivity.
Defined.

(** C9. Whatever images were loaded and whatever the console answers, the
    execution loop of [main] is never left: [running] is 1 on entry, no
    iteration changes it, and every iteration performs a fetch. *)
Theorem main_loop_never_returns
    (fs : filesystem) (argv : list string) (s : state) (kbds : list poll) :
  main_startup fs argv = Entered s ->
  running s = 1
  /\ (forall (k : poll) (s0 : state), running (step k s0) = running s0)
  /\ exists s', main_loop kbds s = StillRunning s'
                /\ main fs argv kbds = Unfinished s'
                /\ running s' = 1
                /\ length (fetched kbds s) = length kbds.
Proof.
  intros Hstart. unfold main. rewrite Hstart.
  destruct (main_startup_entered _ _ _ Hstart) as [m ->].
  split; [reflexivity |]. split; [intros k s0; apply step_running |].
  destruct (main_loop_still_running kbds (initial_state m)) as (s' & H1 & H2 & H3).
  { discriminate. }
  exists s'. rewrite H1. repeat split; assumption.
Qed.

Lemma main_loop_never_returns_witness :
  exists s, main_startup (image_fs halt_image) image_argv = Entered s
            /\ exists s', main_loop [None; Some 97; None] s = StillRunning s'
                          /\ running s' = 1.
Proof.
  pose proof (main_startup_image halt_image) as Hstart.
  eexists. split; [exact Hstart |].
  destruct (main_loop_never_returns _ _ _
              [None; Some 97; None] Hstart) as (_ & _ & s' & Hloop & _ & Hrun & _).
  exists s'. split; assumption.
Defined.

(** ** What the reachable states look like *)


Lemma initial_state_idle (m : gmap Z Z) : registers_idle (initial_state m).
Proof.
  repeat split.
  intros i Hi. unfold R_R7 in Hi.
  do 8 (destruct i as [| i]; [reflexivity |]). lia.
Qed.

Lemma step_idle (k : poll) (s : state) :
  registers_idle s -> registers_idle (step k s).
Proof.
  intros (Hlen & Hgp & Hcond & Hrun & Hout). repeat split.
  - rewrite step_reg_length. exact Hlen.
  - intros i Hi. unfold reg_get. rewrite step_reg_other.
    + by apply Hgp.
    + unfold R_R7, R_PC in *. lia.
  - unfold reg_get. rewrite step_reg_other; [exact Hcond | discriminate].
  - rewrite step_running. exact Hrun.
  - rewrite step_stdout. exact Hout.
Qed.


Lemma field_dr_general (instr : Z) : (field_dr instr <= R_R7)%nat.
Proof.
  unfold field_dr, R_R7. change 7 with (Z.ones 3).
  rewrite Z.land_ones by lia.
  pose proof (Z.mod_pos_bound (Z.shiftr instr 9) (2 ^ 3) eq_refl). lia.
Qed.




(** ** The opcode cases *)

(** C1, as amended. When the fetched instruction is a TRAP with vector 0x25
    (HALT), executing it leaves the running flag as it was: the TRAP case is
    empty.  The program counter has moved on by one (modulo 2^16), and if
    the loop was running it goes on and fetches the word under that
    incremented program counter. *)
Theorem halt_trap_keeps_running (k k' : poll) (kbds : list poll) (s : state) :
  length (reg s) = R_COUNT ->
  opcode (fetch k s) = OP_TRAP ->
  trap_vector (fetch k s) = TRAP_HALT ->
  running (step k s) = running s
  /\ reg_get (reg (step k s)) R_PC = wrap16 (reg_get (reg s) R_PC + 1)
  /\ fetch k' (step k s)
     = fst (mem_read k' (memory (step k s)) (wrap16 (reg_get (reg s) R_PC + 1)))
  /\ (running s <> 0 ->
      main_loop (k :: kbds) s = main_loop kbds (step k s)
      /\ fetched (k :: k' :: kbds) s
         = fetch k s :: fetch k' (step k s) :: fetched kbds (step k' (step k s))).
Proof.
  intros Hlen _ _. split; [apply step_running |].
  split; [by apply step_pc |].
  split; [unfold fetch; by rewrite step_pc |].
  intros Hrun. split; [by apply main_loop_cons |].
  rewrite fetched_cons by exact Hrun.
  rewrite fetched_cons by (rewrite step_running; exact Hrun).
  reflexivity.
Qed.

Lemma halt_trap_keeps_running_witness :
  length (reg (entry_state halt_image)) = R_COUNT
  /\ opcode (fetch None (entry_state halt_image)) = OP_TRAP
  /\ trap_vector (fetch None (entry_state halt_image)) = TRAP_HALT
  /\ running (step None (entry_state halt_image)) = 1
  /\ reg_get (reg (step None (entry_state halt_image))) R_PC = 0x3001
  /\ fetched [None; None] (entry_state halt_image) = [0xF025; 0x1021].
Proof.
  assert (Hlen : length (reg (entry_state halt_image)) = R_COUNT) by reflexivity.
  assert (Hop : opcode (fetch None (entry_state halt_image)) = OP_TRAP) by reflexivity.
  assert (Hvec : trap_vector (fetch None (entry_state halt_image)) = TRAP_HALT) by reflexivity.
  destruct (halt_trap_keeps_running None None [] _ Hlen Hop Hvec)
    as (Hrun & Hpc & _ & Hnext).
  split; [exact Hlen |]. split; [exact Hop |]. split; [exact Hvec |].
  split; [exact Hrun |]. split; [exact Hpc |].
  exact (proj2 (Hnext ltac:(discriminate))).
Defined.

(** C1 as stated fails: after a HALT trap fetched in the entry state of a
    loaded program the running flag is still 1 and the loop fetches again. *)
Lemma halt_trap_stops_refuted :
  ~ (forall (k : poll) (s : state),
        reachable s ->
        opcode (fetch k s) = OP_TRAP ->
        trap_vector (fetch k s) = TRAP_HALT ->
        running (step k s) = 0
        /\ forall kbds, fetched kbds (step k s) = []).
Proof.
  intros Hclaim.
  destruct (Hclaim None (entry_state halt_image))
    as [Hrun _]; [apply reachable_entry_state | reflexivity | reflexivity |].
  discriminate Hrun.
Qed.


(** C2, as amended. When the fetched word is a RES, an RTI or a TRAP with a
    vector outside 0x20..0x25, the iteration prints nothing and leaves the
    running flag as it was (these cases, like the others, only [break]); if
    the loop was running it continues with the next fetch. *)
Theorem unsupported_is_ignored (k k' : poll) (kbds : list poll) (s : state) :
  unsupported (fetch k s) = true ->
  running (step k s) = running s
  /\ stdout (step k s) = stdout s
  /\ (running s <> 0 ->
      main_loop (k :: kbds) s = main_loop kbds (step k s)
      /\ fetched (k :: k' :: kbds) s
         = fetch k s :: fetch k' (step k s) :: fetched kbds (step k' (step k s))).
Proof.
  intros _. split; [apply step_running |]. split; [apply step_stdout |].
  intros Hrun. split; [by apply main_loop_cons |].
  rewrite fetched_cons by exact Hrun.
  rewrite fetched_cons by (rewrite step_running; exact Hrun).
  reflexivity.
Qed.


Lemma unsupported_is_ignored_witness :
  unsupported (fetch None (entry_state reserved_image)) = true
  /\ running (step None (entry_state reserved_image)) = 1
  /\ stdout (step None (entry_state reserved_image)) = EmptyString
  /\ fetched [None; None] (entry_state reserved_image) = [0xD000; 0xF0FF].
Proof.
  assert (Hu : unsupported (fetch None (entry_state reserved_image)) = true)
    by reflexivity.
  destruct (unsupported_is_ignored None None [] _ Hu) as (Hrun & Hout & Hnext).
  split; [exact Hu |]. split; [exact Hrun |]. split; [exact Hout |].
  exact (proj2 (Hnext ltac:(discriminate))).
Defined.

(** C2 as stated fails: a RES word fetched in the entry state neither stops
    the loop nor prints anything. *)
Lemma unsupported_halts_refuted :
  ~ (forall (k : poll) (s : state),
        reachable s ->
        unsupported (fetch k s) = true ->
        running (step k s) = 0 /\ stdout (step k s) <> stdout s).
Proof.
  intros Hclaim.
  destruct (Hclaim None (entry_state reserved_image))
    as [Hrun _]; [apply reachable_entry_state | reflexivity |].
  discriminate Hrun.
Qed.

(** C3, as amended. Executing an ADD instruction leaves every register but
    the program counter as it was, the destination register and the
    condition-flag register included: the ADD case is empty. *)
Theorem add_changes_no_register (k : poll) (s : state) :
  opcode (fetch k s) = OP_ADD ->
  (forall i : nat, i <> R_PC -> reg (step k s) !! i = reg s !! i)
  /\ reg_get (reg (step k s)) (field_dr (fetch k s))
     = reg_get (reg s) (field_dr (fetch k s))
  /\ reg_get (reg (step k s)) R_COND = reg_get (reg s) R_COND.
Proof.
  intros _. split; [intros i Hi; by apply step_reg_other |].
  unfold reg_get. split.
  - rewrite step_reg_other; [reflexivity |].
    pose proof (field_dr_general (fetch k s)) as Hdr.
    unfold R_R7, R_PC in *. lia.
  - rewrite step_reg_other; [reflexivity | discriminate].
Qed.


Lemma add_changes_no_register_witness :
  opcode (fetch None add_scenario) = OP_ADD
  /\ field_dr (fetch None add_scenario) = R_R1
  /\ reg_get (reg (step None add_scenario)) R_R1 = 5
  /\ reg_get (reg (step None add_scenario)) R_COND = FL_ZRO.
Proof.
  assert (Hop : opcode (fetch None add_scenario) = OP_ADD) by reflexivity.
  destruct (add_changes_no_register None add_scenario Hop) as (_ & Hdr & Hcond).
  split; [exact Hop |]. split; [reflexivity |].
  split; [exact Hdr | exact Hcond].
Defined.

(** C3 as stated fails, on the entry state of a program that starts with
    ADD R0, R0, #1 (R0 stays 0, the sum is 1), and in the scenario of the
    specification (R1 stays 5 where 4 is expected, the flag stays ZRO where
    POS is expected). *)
Lemma add_stores_sum_refuted :
  ~ (forall (k : poll) (s : state),
        reachable s ->
        opcode (fetch k s) = OP_ADD ->
        reg_get (reg (step k s)) (field_dr (fetch k s))
        = add_result (fetch k s) (reg s)
        /\ reg_get (reg (step k s)) R_COND
           = flag_of (reg_get (reg (step k s)) (field_dr (fetch k s))))
  /\ (field_imm_flag (fetch None add_scenario) = 1
      /\ field_imm5 (fetch None add_scenario) = wrap16 (-1)
      /\ reg_get (reg add_scenario) (field_sr1 (fetch None add_scenario)) = 5
      /\ add_result (fetch None add_scenario) (reg add_scenario) = 4
      /\ flag_of 4 = FL_POS
      /\ reg_get (reg (step None add_scenario))
           (field_dr (fetch None add_scenario)) <> 4
      /\ reg_get (reg (step None add_scenario)) R_COND <> FL_POS).
Proof.
  split.
  - intros Hclaim.
    destruct (Hclaim None (entry_state add_image))
      as [Hsum _]; [apply reachable_entry_state | reflexivity |].
    vm_compute in Hsum. discriminate Hsum.
  - repeat split; try reflexivity; vm_compute; discriminate.
Qed.

(** ** Bit-level facts *)

Lemma land_low_high (x m n : Z) :
  0 <= n -> 0 <= x < 2 ^ n -> Z.land x (Z.shiftl m n) = 0.
Proof.
  intros Hn Hx. apply Z.bits_inj'. intros i Hi.
  rewrite Z.land_spec, Z.bits_0.
  destruct (Z.lt_ge_cases i n) as [Hlow | Hhigh].
  - rewrite Z.shiftl_spec_low by exact Hlow. apply andb_false_r.
  - rewrite <- (Z.mod_small x (2 ^ n)) by exact Hx.
    rewrite Z.mod_pow2_bits_high by lia. reflexivity.
Qed.

(** Or-ing a field with bits that all lie above it adds them. *)
Lemma lor_low_high (x m n : Z) :
  0 <= n -> 0 <= x < 2 ^ n -> Z.lor x (Z.shiftl m n) = x + m * 2 ^ n.
Proof.
  intros Hn Hx.
  pose proof (Z.add_lor_land x (Z.shiftl m n)) as Hadd.
  rewrite land_low_high in Hadd by assumption.
  rewrite Z.shiftl_mul_pow2 in Hadd |- * by exact Hn. lia.
Qed.

(** The top bit of an [n]-bit field is set exactly from [2^(n-1)] on. *)
Lemma testbit_top (x n : Z) :
  0 < n -> 0 <= x < 2 ^ n -> Z.testbit x (n - 1) = negb (x <? 2 ^ (n - 1)).
Proof.
  intros Hn Hx.
  assert (Hpow : 2 ^ n = 2 * 2 ^ (n - 1)).
  { rewrite <- Z.pow_succ_r by lia. f_equal. lia. }
  assert (Hpos : 0 < 2 ^ (n - 1)) by (apply Z.pow_pos_nonneg; lia).
  pose proof (Z.testbit_spec' x (n - 1) ltac:(lia)) as Hbit.
  destruct (Z.ltb_spec x (2 ^ (n - 1))) as [Hlt | Hge]; cbn [negb].
  - rewrite Z.div_small in Hbit by lia.
    destruct (Z.testbit x (n - 1)); [discriminate Hbit | reflexivity].
  - assert (Hq : x / 2 ^ (n - 1) = 1).
    { symmetry. apply (Z.div_unique_pos x (2 ^ (n - 1)) 1 (x - 2 ^ (n - 1))); lia. }
    rewrite Hq in Hbit.
    destruct (Z.testbit x (n - 1)); [reflexivity | discriminate Hbit].
Qed.

(** ** Sign extension *)

Section SignExtension.

Variables x n : Z.
Hypothesis width : 0 < n <= 16.
Hypothesis field : 0 <= x < 2 ^ n.

Local Lemma pow_n_pos : 0 < 2 ^ n.
Proof. apply Z.pow_pos_nonneg; lia. Qed.

Local Lemma pow_split : 2 ^ 16 = 2 ^ (16 - n) * 2 ^ n.
Proof. rewrite <- Z.pow_add_r by lia. f_equal. lia. Qed.

Local Lemma pow_half : 2 ^ n = 2 * 2 ^ (n - 1).
Proof. rewrite <- Z.pow_succ_r by lia. f_equal. lia. Qed.

Local Ltac pow_facts :=
  pose proof pow_n_pos; pose proof pow_split; pose proof pow_half.

Lemma sign_extend_negative :
  Z.testbit x (n - 1) = true -> sign_extend x n = x + 2 ^ 16 - 2 ^ n.
Proof.
  intros Hbit. pow_facts. unfold sign_extend. rewrite Hbit.
  rewrite lor_low_high by lia. rewrite Z.ones_equiv, pow_split. lia.
Qed.

Lemma sign_extend_nonnegative :
  Z.testbit x (n - 1) = false -> sign_extend x n = x.
Proof. intros Hbit. unfold sign_extend. by rewrite Hbit. Qed.

Lemma sign_extend_value : sign_extend x n = wrap16 (twos_complement n x).
Proof.
  pow_facts.
  assert (Hle : 2 ^ n <= 2 ^ 16) by (apply Z.pow_le_mono_r; lia).
  change (2 ^ 16) with 65536 in *.
  pose proof (testbit_top x n ltac:(lia) field) as Htop.
  unfold twos_complement, wrap16.
  destruct (Z.ltb_spec x (2 ^ (n - 1))) as [Hlt | Hge]; cbn [negb] in Htop.
  - rewrite sign_extend_nonnegative by exact Htop.
    symmetry. apply Z.mod_small. lia.
  - rewrite sign_extend_negative by exact Htop.
    change (2 ^ 16) with 65536.
    apply (Z.mod_unique _ _ (-1)); lia.
Qed.

Lemma sign_extend_signed :
  twos_complement 16 (sign_extend x n) = twos_complement n x.
Proof.
  pow_facts.
  assert (Hle : 2 ^ n <= 2 ^ 16) by (apply Z.pow_le_mono_r; lia).
  assert (Hpos : 0 < 2 ^ (n - 1)) by (apply Z.pow_pos_nonneg; lia).
  pose proof (testbit_top x n ltac:(lia) field) as Htop.
  unfold twos_complement at 2.
  destruct (Z.ltb_spec x (2 ^ (n - 1))) as [Hlt | Hge]; cbn [negb] in Htop.
  - rewrite sign_extend_nonnegative by exact Htop.
    unfold twos_complement.
    assert (Hx : x < 2 ^ (16 - 1)).
    { apply Z.lt_le_trans with (2 ^ (n - 1)); [exact Hlt |].
      apply Z.pow_le_mono_r; lia. }
    destruct (Z.ltb_spec x (2 ^ (16 - 1))); lia.
  - rewrite sign_extend_negative by exact Htop.
    unfold twos_complement.
    change (2 ^ (16 - 1)) with 32768. change (2 ^ 16) with 65536 in *.
    destruct (Z.ltb_spec (x + 65536 - 2 ^ n) 32768); lia.
Qed.

Lemma sign_extend_bits :
  Z.testbit x (n - 1) = true ->
  forall i, 0 <= i < 16 ->
    Z.testbit (sign_extend x n) i = if i <? n then Z.testbit x i else true.
Proof.
  intros Hbit i Hi. unfold sign_extend. rewrite Hbit, Z.lor_spec.
  destruct (Z.ltb_spec i n) as [Hlow | Hhigh].
  - rewrite Z.shiftl_spec_low by exact Hlow. apply orb_false_r.
  - rewrite Z.shiftl_spec by lia. rewrite Z.ones_spec_low by lia.
    apply orb_true_r.
Qed.

End SignExtension.

(** C5. For a field of width n in {5, 6, 9, 11}, sign extension to 16 bits
    is the two's-complement reading of the field: with bit n-1 set all the
    higher bits of the word become 1 and the field bits stay, otherwise the
    value is unchanged; the 5-bit field 0b10101 extends to 0xFFF5. *)
Theorem sign_extend_twos_complement (n x : Z) :
  n = 5 \/ n = 6 \/ n = 9 \/ n = 11 ->
  0 <= x < 2 ^ n ->
  sign_extend x n = wrap16 (twos_complement n x)
  /\ twos_complement 16 (sign_extend x n) = twos_complement n x
  /\ (Z.testbit x (n - 1) = true ->
      forall i, 0 <= i < 16 ->
        Z.testbit (sign_extend x n) i = if i <? n then Z.testbit x i else true)
  /\ (Z.testbit x (n - 1) = false -> sign_extend x n = x)
  /\ sign_extend 21 5 = 0xFFF5.
Proof.
  intros Hn Hx.
  assert (Hw : 0 < n <= 16) by lia.
  split; [by apply sign_extend_value |].
  split; [by apply sign_extend_signed |].
  split; [by apply sign_extend_bits |].
  split; [apply sign_extend_nonnegative | reflexivity].
Qed.

Lemma sign_extend_twos_complement_witness :
  (5 = 5 \/ 5 = 6 \/ 5 = 9 \/ 5 = 11) /\ 0 <= 21 < 2 ^ 5
  /\ sign_extend 21 5 = wrap16 (twos_complement 5 21)
  /\ twos_complement 16 (sign_extend 21 5) = -11.
Proof.
  assert (Hn : 5 = 5 \/ 5 = 6 \/ 5 = 9 \/ 5 = 11) by (left; reflexivity).
  assert (Hx : 0 <= 21 < 2 ^ 5) by (cbn; lia).
  destruct (sign_extend_twos_complement 5 21 Hn Hx) as (Hv & Hs & _).
  split; [exact Hn |]. split; [exact Hx |]. split; [exact Hv | exact Hs].
Defined.

(** ** The image loader *)


Lemma byte_val_range (b : byte) : 0 <= byte_val b < 256.
Proof. unfold byte_val. pose proof (Byte.to_N_bounded b). lia. Qed.

Lemma native_word_value (b0 b1 : byte) :
  native_word b0 b1 = byte_val b0 + 256 * byte_val b1.
Proof.
  unfold native_word. pose proof (byte_val_range b0).
  rewrite lor_low_high by (cbn; lia). cbn. lia.
Qed.

(** Swapping the native reading of two bytes gives their big-endian
    reading. *)
Lemma swap16_native_word (b0 b1 : byte) :
  swap16 (native_word b0 b1) = be_word b0 b1.
Proof.
  pose proof (byte_val_range b0) as H0. pose proof (byte_val_range b1) as H1.
  unfold swap16, be_word, wrap16. rewrite native_word_value.
  assert (Hhi : Z.shiftr (byte_val b0 + 256 * byte_val b1) 8 = byte_val b1).
  { rewrite Z.shiftr_div_pow2 by lia. change (2 ^ 8) with 256.
    symmetry. apply (Z.div_unique_pos _ _ _ (byte_val b0)); lia. }
  rewrite Hhi, Z.lor_comm, lor_low_high by (cbn; lia).
  change (2 ^ 8) with 256.
  symmetry. apply (Z.mod_unique_pos _ _ (byte_val b1)); lia.
Qed.

Example swap16_origin : swap16 0x0030 = 0x3000.
Proof. reflexivity. Qed.

Lemma fread_zero (file : list byte) : fread file 0 = ([], None, file).
Proof. destruct file as [| b0 [| b1 file]]; reflexivity. Qed.

Lemma fread_origin (b0 b1 : byte) (rest : list byte) :
  fread (b0 :: b1 :: rest) 1 = ([native_word b0 b1], None, rest).
Proof. cbn [fread]. cbn. rewrite fread_zero. reflexivity. Qed.

(** A stream of whole words that fits the count is read to its end. *)
Lemma fread_stream (pairs : list (byte * byte)) :
  forall count : Z,
    Z.of_nat (length pairs) <= count ->
    fread (stream_of pairs) count
    = (map (fun pr => native_word (fst pr) (snd pr)) pairs, None, []).
Proof.
  induction pairs as [| [b0 b1] pairs IH]; intros count Hcount.
  - cbn. destruct (0 <? count); reflexivity.
  - cbn [stream_of flat_map fst snd app fread].
    cbn [length] in Hcount.
    destruct (Z.ltb_spec 0 count) as [_ | Hle]; [| lia].
    fold (stream_of pairs). rewrite IH by lia. reflexivity.
Qed.

Lemma store_words_outside (ws : list Z) :
  forall (p : Z) (m : gmap Z Z) (a : Z),
    ~ (p <= a < p + Z.of_nat (length ws)) ->
    store_words p ws m !! a = m !! a.
Proof.
  induction ws as [| w ws IH]; intros p m a Ha; [reflexivity |].
  cbn [store_words]. cbn [length] in Ha.
  rewrite IH by lia. apply lookup_insert_ne. lia.
Qed.

Lemma store_words_inside (ws : list Z) :
  forall (p : Z) (m : gmap Z Z) (i : nat) (w : Z),
    ws !! i = Some w ->
    cell (store_words p ws m) (p + Z.of_nat i) = w.
Proof.
  induction ws as [| w0 ws IH]; intros p m i w Hi; [discriminate Hi |].
  cbn [store_words]. destruct i as [| i].
  - injection Hi as ->. unfold cell.
    rewrite store_words_outside by lia.
    replace (p + Z.of_nat 0) with p by lia. by rewrite lookup_insert_eq.
  - replace (p + Z.of_nat (S i)) with (p + 1 + Z.of_nat i) by lia.
    apply IH. exact Hi.
Qed.

Lemma swap_cells_outside (read : nat) :
  forall (p : Z) (m : gmap Z Z) (a : Z),
    ~ (p <= a < p + Z.of_nat read) ->
    swap_cells read p m !! a = m !! a.
Proof.
  induction read as [| read IH]; intros p m a Ha; [reflexivity |].
  cbn [swap_cells]. rewrite IH by lia. apply lookup_insert_ne. lia.
Qed.

Lemma swap_cells_inside (read : nat) :
  forall (p : Z) (m : gmap Z Z) (i : nat),
    (i < read)%nat ->
    cell (swap_cells read p m) (p + Z.of_nat i) = swap16 (cell m (p + Z.of_nat i)).
Proof.
  induction read as [| read IH]; intros p m i Hi; [lia |].
  cbn [swap_cells]. destruct i as [| i].
  - replace (p + Z.of_nat 0) with p by lia. unfold cell at 1.
    rewrite swap_cells_outside by lia. by rewrite lookup_insert_eq.
  - replace (p + Z.of_nat (S i)) with (p + 1 + Z.of_nat i) by lia.
    rewrite IH by lia. f_equal. apply cell_insert_ne. lia.
Qed.

(** What [read_image_file] does with a well-formed image: an origin word
    and then whole words, no more of them than the memory above the origin
    holds.  It holds for every origin but 0. *)
Lemma read_image_file_places_words
    (hi lo : byte) (pairs : list (byte * byte)) (m : gmap Z Z) :
  1 <= be_word hi lo ->
  be_word hi lo + Z.of_nat (length pairs) <= MEMORY_MAX ->
  (forall (i : nat) (pr : byte * byte),
      pairs !! i = Some pr ->
      cell (read_image_file (hi :: lo :: stream_of pairs) m)
           (be_word hi lo + Z.of_nat i)
      = be_word (fst pr) (snd pr))
  /\ (forall a : Z,
        ~ (be_word hi lo <= a < be_word hi lo + Z.of_nat (length pairs)) ->
        read_image_file (hi :: lo :: stream_of pairs) m !! a = m !! a).
Proof.
  intros Horigin Hfit. unfold MEMORY_MAX in Hfit.
  pose proof (byte_val_range hi) as Hhi. pose proof (byte_val_range lo) as Hlo.
  assert (Hload :
    read_image_file (hi :: lo :: stream_of pairs) m
    = swap_cells (length pairs) (be_word hi lo)
        (store_words (be_word hi lo)
           (map (fun pr => native_word (fst pr) (snd pr)) pairs) m)).
  { unfold read_image_file. rewrite fread_origin, swap16_native_word.
    rewrite fread_stream.
    - by rewrite length_map.
    - unfold MEMORY_MAX, wrap16. rewrite Z.mod_small; unfold be_word in *; lia. }
  rewrite Hload. split.
  - intros i pr Hi.
    rewrite swap_cells_inside by (eapply lookup_lt_Some; exact Hi).
    rewrite (store_words_inside _ _ _ i (native_word (fst pr) (snd pr))).
    + apply swap16_native_word.
    + rewrite list_lookup_fmap, Hi. reflexivity.
  - intros a Ha. rewrite swap_cells_outside by exact Ha.
    apply store_words_outside. by rewrite length_map.
Qed.

(** C7, at the input where the program departs from it.  An image whose
    origin word is 0 is not loaded at all, whatever follows the origin:
    [max_read] is [MEMORY_MAX - 0] truncated to 16 bits, that is 0.  With
    the one word 0x1234 after the origin, cell 0 of a cleared memory still
    reads 0. *)
Theorem read_image_file_origin_zero :
  (forall (rest : list byte) (m : gmap Z Z),
      read_image_file (x00 :: x00 :: rest) m = m)
  /\ be_word x12 x34 = 0x1234
  /\ origin_zero_image = [x00; x00; x12; x34]
  /\ cell (read_image_file origin_zero_image ∅) 0 = 0.
Proof.
  split; [| repeat split].
  intros rest m. unfold read_image_file. rewrite fread_origin.
  change (wrap16 (MEMORY_MAX - swap16 (native_word x00 x00))) with 0.
  rewrite fread_zero. reflexivity.
Qed.

(** The round trip of the specification: an image with origin 0x3000 and N
    words leaves those words at 0x3000 .. 0x3000+N-1 of a cleared memory and
    every other cell 0. *)
Lemma read_image_file_round_trip (pairs : list (byte * byte)) :
  0x3000 + Z.of_nat (length pairs) <= 65536 ->
  (forall (i : nat) (pr : byte * byte),
      pairs !! i = Some pr ->
      cell (read_image_file (x30 :: x00 :: stream_of pairs) ∅)
           (0x3000 + Z.of_nat i)
      = be_word (fst pr) (snd pr))
  /\ (forall a : Z,
        ~ (0x3000 <= a < 0x3000 + Z.of_nat (length pairs)) ->
        cell (read_image_file (x30 :: x00 :: stream_of pairs) ∅) a = 0).
Proof.
  intros Hfit.
  destruct (read_image_file_places_words x30 x00 pairs ∅) as [Hin Hout].
  - discriminate.
  - exact Hfit.
  - split; [exact Hin |].
    intros a Ha. unfold cell. rewrite (Hout a Ha). reflexivity.
Qed.

(** ** Start-up *)



Lemma initial_state_pc (m : gmap Z Z) :
  reg_get (reg (initial_state m)) R_PC = PC_START.
Proof. reflexivity. Qed.

(** With no image path on the command line the program prints its usage
    line and exits with status 2. *)
Lemma main_startup_no_image (fs : filesystem) (prog : string) :
  main_startup fs [prog] = Exited 2 usage_message.
Proof. reflexivity. Qed.

Lemma load_images_app_failure (fs : filesystem) (pre : list string) :
  forall (p : string) (post : list string) (m : gmap Z Z),
    forallb (readable fs) pre = true ->
    fs p = None ->
    load_images fs (pre ++ p :: post) m = inl p.
Proof.
  induction pre as [| q pre IH]; intros p post m Hpre Hp.
  - cbn [app load_images]. unfold read_image. by rewrite Hp.
  - cbn [forallb] in Hpre. apply andb_prop in Hpre as [Hq Hpre].
    cbn [app load_images]. unfold read_image. unfold readable in Hq.
    destruct (fs q) as [file |]; [| discriminate Hq]. by apply IH.
Qed.





(** * Further properties of the code *)

(** ** [swap16] *)

Lemma swap16_value (x : Z) :
  0 <= x < 65536 -> swap16 x = 256 * (x mod 256) + x / 256.
Proof.
  intros Hx. unfold swap16, wrap16.
  pose proof (Z.mod_pos_bound x 256 eq_refl) as Hlo.
  pose proof (Z.div_mod x 256 ltac:(discriminate)) as Hsplit.
  assert (Hhi : 0 <= x / 256 < 256).
  { split; [apply Z.div_pos; lia | apply Z.div_lt_upper_bound; lia]. }
  rewrite Z.shiftr_div_pow2 by lia. change (2 ^ 8) with 256.
  rewrite Z.lor_comm, lor_low_high by (cbn; lia). change (2 ^ 8) with 256.
  symmetry. apply (Z.mod_unique_pos _ _ (x / 256)); lia.
Qed.

(** X1. On 16-bit words [swap16] exchanges the two bytes: the result is a
    16-bit word again, its high byte is the argument's low byte and its low
    byte the argument's high byte, and swapping twice gives the argument
    back. *)
Theorem swap16_involutive (x : Z) :
  0 <= x < 65536 ->
  0 <= swap16 x < 65536
  /\ swap16 x / 256 = x mod 256
  /\ swap16 x mod 256 = x / 256
  /\ swap16 (swap16 x) = x.
Proof.
  intros Hx.
  pose proof (Z.mod_pos_bound x 256 eq_refl) as Hlo.
  pose proof (Z.div_mod x 256 ltac:(discriminate)) as Hsplit.
  assert (Hhi : 0 <= x / 256 < 256).
  { split; [apply Z.div_pos; lia | apply Z.div_lt_upper_bound; lia]. }
  assert (Hdiv : swap16 x / 256 = x mod 256).
  { rewrite swap16_value by exact Hx.
    symmetry. apply (Z.div_unique_pos _ _ _ (x / 256)); lia. }
  assert (Hmod : swap16 x mod 256 = x / 256).
  { rewrite swap16_value by exact Hx.
    symmetry. apply (Z.mod_unique_pos _ _ (x mod 256)); lia. }
  assert (Hrange : 0 <= swap16 x < 65536).
  { rewrite swap16_value by exact Hx. lia. }
  repeat split; try lia.
  rewrite (swap16_value (swap16 x)) by exact Hrange.
  rewrite Hdiv, Hmod. lia.
Qed.

Lemma swap16_involutive_witness :
  0 <= 0x1234 < 65536 /\ swap16 0x1234 = 0x3412 /\ swap16 (swap16 0x1234) = 0x1234.
Proof.
  assert (Hx : 0 <= 0x1234 < 65536) by lia.
  destruct (swap16_involutive 0x1234 Hx) as (_ & _ & _ & Hback).
  split; [exact Hx |]. split; [reflexivity | exact Hback].
Defined.

(** ** Memory reads and writes together *)

(** X2. A value written to any address but the keyboard status register is
    what the next read of that address returns, whatever the console does,
    and that read changes nothing; reads of the other plain addresses still
    return what they held before the write. *)
Theorem mem_write_then_read (k : poll) (m : gmap Z Z) (a v : Z) :
  a <> MR_KBSR ->
  mem_read k (mem_write m a v) a = (v, mem_write m a v)
  /\ forall b, b <> a -> b <> MR_KBSR ->
       mem_read k (mem_write m a v) b = (cell m b, mem_write m a v).
Proof.
  intros Ha. split.
  - rewrite mem_read_plain by exact Ha. unfold mem_write.
    by rewrite cell_insert_eq.
  - intros b Hba Hb. rewrite mem_read_plain by exact Hb. unfold mem_write.
    rewrite cell_insert_ne by congruence. reflexivity.
Qed.

Lemma mem_write_then_read_witness :
  0x4000 <> MR_KBSR
  /\ mem_read (Some 65) (mem_write ∅ 0x4000 7) 0x4000 = (7, mem_write ∅ 0x4000 7).
Proof.
  assert (Ha : 0x4000 <> MR_KBSR) by discriminate.
  split; [exact Ha |].
  exact (proj1 (mem_write_then_read (Some 65) ∅ 0x4000 7 Ha)).
Defined.

(** X3. A write to the keyboard status register is lost at the next read of
    it: the read polls the console and overwrites the cell, so it returns
    [1 << 15] or 0 and leaves the same memory as if nothing had been
    written. *)
Theorem status_write_is_lost (k : poll) (m : gmap Z Z) (v : Z) :
  mem_read k (mem_write m MR_KBSR v) MR_KBSR = mem_read k m MR_KBSR
  /\ fst (mem_read k m MR_KBSR)
     = match k with Some _ => Z.shiftl 1 15 | None => 0 end.
Proof.
  split.
  - unfold mem_write. destruct k as [c |].
    + rewrite !mem_read_key. by rewrite insert_insert_eq.
    + rewrite !mem_read_no_key. by rewrite insert_insert_eq.
  - destruct k as [c |]; [rewrite mem_read_key | rewrite mem_read_no_key];
      reflexivity.
Qed.

(** ** The console and the loop *)

(** X4. The console is consulted only when the program counter is at the
    keyboard status register: at any other program counter the fetched word
    and the whole state after the iteration are the same for every answer
    the console could give, and memory is not changed at all. *)
Theorem poll_only_at_status_register (k k' : poll) (s : state) :
  reg_get (reg s) R_PC <> MR_KBSR ->
  fetch k s = cell (memory s) (reg_get (reg s) R_PC)
  /\ fetch k s = fetch k' s
  /\ step k s = step k' s
  /\ memory (step k s) = memory s.
Proof.
  intros Hpc. unfold fetch. rewrite !step_unfold.
  rewrite !mem_read_plain by exact Hpc. repeat split.
Qed.

Lemma poll_only_at_status_register_witness :
  reg_get (reg (entry_state halt_image)) R_PC <> MR_KBSR
  /\ fetch (Some 65) (entry_state halt_image) = 0xF025
  /\ step (Some 65) (entry_state halt_image) = step None (entry_state halt_image).
Proof.
  assert (Hpc : reg_get (reg (entry_state halt_image)) R_PC <> MR_KBSR)
    by discriminate.
  destruct (poll_only_at_status_register (Some 65) None _ Hpc)
    as (Hf & _ & Hs & _).
  split; [exact Hpc |]. split; [rewrite Hf; reflexivity | exact Hs].
Defined.

(** ** The image loader on arbitrary streams *)

(** [fread] consumes its stream two bytes at a time; so does this induction
    principle. *)
Lemma byte_pairs_ind (P : list byte -> Prop) :
  P [] -> (forall b, P [b]) ->
  (forall b0 b1 file, P file -> P (b0 :: b1 :: file)) ->
  forall file, P file.
Proof.
  intros Hnil Hone Hstep.
  assert (Hboth : forall file, P file /\ forall b, P (b :: file)).
  { induction file as [| b0 file [IH0 IH1]].
    - split; [exact Hnil | exact Hone].
    - split; [apply IH1 |]. intros b. apply Hstep, IH0. }
  intros file. apply Hboth.
Qed.

(** [fread] never delivers more items than it was asked for, and a partial
    item is taken only while items are still wanted. *)
Lemma fread_length (file : list byte) :
  forall count : Z,
    Z.of_nat (length (fread file count).1.1) <= Z.max 0 count
    /\ ((fread file count).1.2 <> None ->
        Z.of_nat (length (fread file count).1.1) < count).
Proof.
  induction file as [| b | b0 b1 file IH] using byte_pairs_ind; intros count.
  - cbn. split; [lia | congruence].
  - cbn [fread]. destruct (Z.ltb_spec 0 count) as [Hpos | Hle]; cbn.
    + split; [lia | intros _; lia].
    + split; [lia | congruence].
  - cbn [fread]. destruct (Z.ltb_spec 0 count) as [Hpos | Hle].
    + specialize (IH (count - 1)).
      destruct (fread file (count - 1)) as [[ws partial] rest].
      cbn [fst snd length] in *. destruct IH as [Hlen Hpartial].
      split; [lia |]. intros Hsome. specialize (Hpartial Hsome). lia.
    + cbn. split; [lia | congruence].
Qed.

(** On a stream of whole words [fread] delivers the first [count] of them
    and meets no partial item. *)
Lemma fread_stream_take (pairs : list (byte * byte)) :
  forall count : Z,
    0 <= count ->
    (fread (stream_of pairs) count).1
    = (map (fun pr => native_word (fst pr) (snd pr)) (take (Z.to_nat count) pairs),
       None).
Proof.
  induction pairs as [| [b0 b1] pairs IH]; intros count Hcount.
  - cbn. by rewrite take_nil.
  - cbn [stream_of flat_map fst snd app fread]. fold (stream_of pairs).
    destruct (Z.ltb_spec 0 count) as [Hpos | Hle].
    + specialize (IH (count - 1) ltac:(lia)).
      destruct (fread (stream_of pairs) (count - 1)) as [[ws partial] rest].
      cbn [fst] in *. injection IH as -> ->.
      replace (Z.to_nat count) with (S (Z.to_nat (count - 1))) by lia.
      reflexivity.
    + replace count with 0 by lia. reflexivity.
Qed.

Lemma store_partial_outside (p : Z) (partial : option byte) (m : gmap Z Z) (a : Z) :
  a <> p -> store_partial p partial m !! a = m !! a.
Proof.
  intros Ha. destruct partial as [b |]; [| reflexivity].
  cbn [store_partial]. apply lookup_insert_ne. congruence.
Qed.

Lemma swap_cells_lookup_inside (read : nat) :
  forall (p : Z) (m : gmap Z Z) (i : nat),
    (i < read)%nat ->
    swap_cells read p m !! (p + Z.of_nat i) = Some (swap16 (cell m (p + Z.of_nat i))).
Proof.
  induction read as [| read IH]; intros p m i Hi; [lia |].
  cbn [swap_cells]. destruct i as [| i].
  - replace (p + Z.of_nat 0) with p by lia.
    rewrite swap_cells_outside by lia. by rewrite lookup_insert_eq.
  - replace (p + Z.of_nat (S i)) with (p + 1 + Z.of_nat i) by lia.
    rewrite IH by lia. do 2 f_equal. apply cell_insert_ne. lia.
Qed.

(** What [read_image_file] computes once the origin word has been read. *)
Lemma read_image_file_unfold (hi lo : byte) (rest : list byte) (m : gmap Z Z) :
  read_image_file (hi :: lo :: rest) m
  = swap_cells
      (length (fread rest (wrap16 (MEMORY_MAX - be_word hi lo))).1.1)
      (be_word hi lo)
      (store_partial
         (be_word hi lo
          + Z.of_nat (length (fread rest (wrap16 (MEMORY_MAX - be_word hi lo))).1.1))
         (fread rest (wrap16 (MEMORY_MAX - be_word hi lo))).1.2
         (store_words (be_word hi lo)
            (fread rest (wrap16 (MEMORY_MAX - be_word hi lo))).1.1 m)).
Proof.
  unfold read_image_file. rewrite fread_origin, swap16_native_word.
  destruct (fread rest (wrap16 (MEMORY_MAX - be_word hi lo)))
    as [[ws partial] rest'].
  reflexivity.
Qed.

Lemma be_word_16 (hi lo : byte) : word16 (be_word hi lo).
Proof.
  pose proof (byte_val_range hi). pose proof (byte_val_range lo).
  unfold word16, be_word. lia.
Qed.

(** The room above a nonzero origin. *)
Lemma max_read_value (hi lo : byte) :
  1 <= be_word hi lo ->
  wrap16 (MEMORY_MAX - be_word hi lo) = 65536 - be_word hi lo.
Proof.
  intros Horigin. pose proof (be_word_16 hi lo) as H16.
  unfold word16 in H16. unfold wrap16, MEMORY_MAX. apply Z.mod_small. lia.
Qed.

(** X5. An image longer than the memory above its (nonzero) origin is cut
    off at the end of memory: the words that fit are stored, byte-swapped,
    from the origin on; the others are dropped, and no other cell, in
    particular none below the origin, is written. *)
Theorem read_image_file_truncates
    (hi lo : byte) (pairs : list (byte * byte)) (m : gmap Z Z) :
  1 <= be_word hi lo ->
  (forall (i : nat) (pr : byte * byte),
      pairs !! i = Some pr ->
      be_word hi lo + Z.of_nat i < MEMORY_MAX ->
      read_image_file (image_bytes hi lo pairs) m !! (be_word hi lo + Z.of_nat i)
      = Some (be_word (fst pr) (snd pr)))
  /\ (forall a : Z,
        ~ (be_word hi lo <= a
           < be_word hi lo + Z.min (Z.of_nat (length pairs))
                                   (MEMORY_MAX - be_word hi lo)) ->
        read_image_file (image_bytes hi lo pairs) m !! a = m !! a).
Proof.
  intros Horigin. pose proof (be_word_16 hi lo) as H16. unfold word16 in H16.
  unfold image_bytes. rewrite read_image_file_unfold, max_read_value by exact Horigin.
  rewrite fread_stream_take by lia. cbn [fst snd store_partial].
  set (room := Z.to_nat (65536 - be_word hi lo)).
  set (ws := map (fun pr => native_word (fst pr) (snd pr)) (take room pairs)).
  assert (Hlen : length ws = Nat.min room (length pairs)).
  { unfold ws. by rewrite length_map, length_take. }
  unfold MEMORY_MAX. split.
  - intros i pr Hi Hfit.
    assert (Hroom : (i < room)%nat) by (unfold room; lia).
    assert (Hws : ws !! i = Some (native_word (fst pr) (snd pr))).
    { unfold ws. rewrite list_lookup_fmap, lookup_take_lt by exact Hroom.
      by rewrite Hi. }
    rewrite swap_cells_lookup_inside by (eapply lookup_lt_Some; exact Hws).
    rewrite (store_words_inside _ _ _ _ _ Hws).
    by rewrite swap16_native_word.
  - intros a Ha.
    rewrite swap_cells_outside by (rewrite Hlen; unfold room; lia).
    apply store_words_outside. rewrite Hlen. unfold room. lia.
Qed.

Lemma read_image_file_truncates_witness :
  1 <= be_word xff xff
  /\ read_image_file (image_bytes xff xff [(x12, x34); (x56, x78)]) ∅ !! 0xFFFF
     = Some 0x1234
  /\ read_image_file (image_bytes xff xff [(x12, x34); (x56, x78)]) ∅ !! 0
     = None.
Proof.
  assert (Horigin : 1 <= be_word xff xff) by discriminate.
  destruct (read_image_file_truncates xff xff [(x12, x34); (x56, x78)] ∅ Horigin)
    as [Hin Hout].
  split; [exact Horigin |]. split.
  - exact (Hin 0%nat (x12, x34) eq_refl ltac:(reflexivity)).
  - apply (Hout 0). cbn. lia.
Defined.

(** X6. Whatever bytes the stream holds, [read_image_file] writes only cells
    from the origin up to the end of the 65536-cell memory: nothing below
    the origin and nothing beyond address 0xFFFF.  A stream that ends with
    or before its origin word changes no cell at all. *)
Theorem read_image_file_in_bounds (file : list byte) (m : gmap Z Z) :
  (forall a : Z, ~ (0 <= a < MEMORY_MAX) -> read_image_file file m !! a = m !! a)
  /\ (forall (hi lo : byte) (rest : list byte) (a : Z),
         file = hi :: lo :: rest -> a < be_word hi lo ->
         read_image_file file m !! a = m !! a)
  /\ ((length file <= 2)%nat -> read_image_file file m = m).
Proof.
  assert (Hwritten : forall (hi lo : byte) (rest : list byte) (a : Z),
             ~ (be_word hi lo <= a < MEMORY_MAX) ->
             read_image_file (hi :: lo :: rest) m !! a = m !! a).
  { intros hi lo rest a Ha. rewrite read_image_file_unfold.
    pose proof (be_word_16 hi lo) as H16. unfold word16 in H16.
    pose proof (fread_length rest (wrap16 (MEMORY_MAX - be_word hi lo))) as Hlen.
    assert (Hroom : wrap16 (MEMORY_MAX - be_word hi lo) <= MEMORY_MAX - be_word hi lo).
    { unfold wrap16, MEMORY_MAX.
      destruct (Z.eq_dec (be_word hi lo) 0) as [E | Hnz];
        [rewrite E; vm_compute; discriminate |].
      rewrite Z.mod_small; lia. }
    unfold MEMORY_MAX in *.
    set (r := fread rest (wrap16 (65536 - be_word hi lo))) in *.
    destruct Hlen as [Hlen Hpartial].
    rewrite swap_cells_outside by lia.
    destruct (r.1.2) as [b |] eqn:Epart.
    - assert (Hlt := Hpartial ltac:(discriminate)).
      rewrite store_partial_outside by lia. apply store_words_outside. lia.
    - cbn [store_partial]. apply store_words_outside. lia. }
  split; [| split].
  - intros a Ha. destruct file as [| hi [| lo rest]]; try reflexivity.
    apply Hwritten. pose proof (be_word_16 hi lo) as H16.
    unfold word16, MEMORY_MAX in *. lia.
  - intros hi lo rest a -> Ha. apply Hwritten. lia.
  - intros Hshort. destruct file as [| hi [| lo [| b rest]]]; try reflexivity.
    cbn [length] in Hshort. lia.
Qed.

Lemma read_image_file_in_bounds_witness :
  read_image_file [x30; x00; x12; x34; xab] ∅ !! 0x2FFF = None
  /\ read_image_file [x30; x00] (read_image_file halt_image ∅)
     = read_image_file halt_image ∅.
Proof.
  destruct (read_image_file_in_bounds [x30; x00; x12; x34; xab] ∅)
    as (_ & Hbelow & _).
  destruct (read_image_file_in_bounds [x30; x00] (read_image_file halt_image ∅))
    as (_ & _ & Hshort).
  split.
  - exact (Hbelow x30 x00 [x12; x34; xab] 0x2FFF eq_refl eq_refl).
  - exact (Hshort ltac:(cbn; lia)).
Defined.

(** A stream that ends in the middle of a word: the word before is stored
    swapped, the odd byte lands unswapped in the low byte of the next cell. *)
Example read_image_file_odd_stream :
  read_image_file [x30; x00; x12; x34; xab] ∅
  = <[0x3001 := 0xAB]> (<[0x3000 := 0x1234]> ∅).
Proof. vm_compute. reflexivity. Qed.

(** X7. Loading a second image over a first: where the second image lies its
    words are found; the words of the first image outside the second one
    survive; every cell outside both is untouched. *)
Theorem later_image_overwrites
    (hi1 lo1 hi2 lo2 : byte) (pairs1 pairs2 : list (byte * byte))
    (m : gmap Z Z) :
  1 <= be_word hi1 lo1 ->
  be_word hi1 lo1 + Z.of_nat (length pairs1) <= MEMORY_MAX ->
  1 <= be_word hi2 lo2 ->
  be_word hi2 lo2 + Z.of_nat (length pairs2) <= MEMORY_MAX ->
  let m2 := read_image_file (image_bytes hi2 lo2 pairs2)
              (read_image_file (image_bytes hi1 lo1 pairs1) m) in
  (forall (i : nat) (pr : byte * byte),
      pairs2 !! i = Some pr ->
      cell m2 (be_word hi2 lo2 + Z.of_nat i) = be_word (fst pr) (snd pr))
  /\ (forall (i : nat) (pr : byte * byte),
        pairs1 !! i = Some pr ->
        ~ (be_word hi2 lo2 <= be_word hi1 lo1 + Z.of_nat i
           < be_word hi2 lo2 + Z.of_nat (length pairs2)) ->
        cell m2 (be_word hi1 lo1 + Z.of_nat i) = be_word (fst pr) (snd pr))
  /\ (forall a : Z,
        ~ (be_word hi1 lo1 <= a < be_word hi1 lo1 + Z.of_nat (length pairs1)) ->
        ~ (be_word hi2 lo2 <= a < be_word hi2 lo2 + Z.of_nat (length pairs2)) ->
        m2 !! a = m !! a).
Proof.
  intros Ho1 Hfit1 Ho2 Hfit2 m2. unfold image_bytes in m2.
  destruct (read_image_file_places_words hi1 lo1 pairs1 m Ho1 Hfit1)
    as [Hin1 Hout1].
  destruct (read_image_file_places_words hi2 lo2 pairs2
              (read_image_file (hi1 :: lo1 :: stream_of pairs1) m) Ho2 Hfit2)
    as [Hin2 Hout2].
  split; [exact Hin2 |]. split.
  - intros i pr Hi Hclear. unfold cell, m2. rewrite Hout2 by exact Hclear.
    apply (Hin1 i pr Hi).
  - intros a Ha1 Ha2. unfold m2. rewrite Hout2 by exact Ha2. by apply Hout1.
Qed.

Lemma later_image_overwrites_witness :
  cell (read_image_file (image_bytes x30 x01 [(xaa, xbb)])
          (read_image_file (image_bytes x30 x00 [(x11, x22); (x33, x44)]) ∅))
       0x3001 = 0xAABB
  /\ cell (read_image_file (image_bytes x30 x01 [(xaa, xbb)])
             (read_image_file (image_bytes x30 x00 [(x11, x22); (x33, x44)]) ∅))
          0x3000 = 0x1122.
Proof.
  destruct (later_image_overwrites x30 x00 x30 x01
              [(x11, x22); (x33, x44)] [(xaa, xbb)] ∅)
    as (Hnew & Hold & _);
    [discriminate | discriminate | discriminate | discriminate |].
  split.
  - exact (Hnew 0%nat (xaa, xbb) eq_refl).
  - refine (Hold 0%nat (x11, x22) eq_refl _).
    intros [Hle _]. vm_compute in Hle. apply Hle. reflexivity.
Defined.

(** The words of an image that fits, as the loader leaves them. *)
Lemma read_image_file_lookup_words
    (hi lo : byte) (pairs : list (byte * byte)) (m : gmap Z Z) :
  1 <= be_word hi lo ->
  be_word hi lo + Z.of_nat (length pairs) <= MEMORY_MAX ->
  forall (i : nat) (pr : byte * byte),
    pairs !! i = Some pr ->
    read_image_file (image_bytes hi lo pairs) m !! (be_word hi lo + Z.of_nat i)
    = Some (be_word (fst pr) (snd pr)).
Proof.
  intros Horigin Hfit i pr Hi. unfold MEMORY_MAX in Hfit. unfold image_bytes.
  rewrite read_image_file_unfold, max_read_value by exact Horigin.
  rewrite fread_stream by lia. cbn [fst snd store_partial]. rewrite length_map.
  rewrite swap_cells_lookup_inside by (eapply lookup_lt_Some; exact Hi).
  rewrite (store_words_inside _ _ _ i (native_word (fst pr) (snd pr))).
  - by rewrite swap16_native_word.
  - by rewrite list_lookup_fmap, Hi.
Qed.

(** X8. Loading the same well-formed image a second time changes nothing:
    the memory after two loads is the memory after one. *)
Theorem reload_is_idempotent
    (hi lo : byte) (pairs : list (byte * byte)) (m : gmap Z Z) :
  1 <= be_word hi lo ->
  be_word hi lo + Z.of_nat (length pairs) <= MEMORY_MAX ->
  read_image_file (image_bytes hi lo pairs)
    (read_image_file (image_bytes hi lo pairs) m)
  = read_image_file (image_bytes hi lo pairs) m.
Proof.
  intros Horigin Hfit. apply map_eq. intros a.
  set (m1 := read_image_file (image_bytes hi lo pairs) m).
  pose proof (read_image_file_lookup_words hi lo pairs m Horigin Hfit) as Hin1.
  pose proof (read_image_file_lookup_words hi lo pairs m1 Horigin Hfit) as Hin2.
  destruct (read_image_file_places_words hi lo pairs m1 Horigin Hfit)
    as [_ Hout2].
  fold (image_bytes hi lo pairs) in Hout2. fold m1 in Hin1.
  destruct (Z_lt_le_dec a (be_word hi lo)) as [Hlow | Hge].
  { apply Hout2. lia. }
  destruct (Z_lt_le_dec a (be_word hi lo + Z.of_nat (length pairs)))
    as [Hinside | Hhigh].
  - replace a with (be_word hi lo + Z.of_nat (Z.to_nat (a - be_word hi lo)))
      by lia.
    destruct (lookup_lt_is_Some_2 pairs (Z.to_nat (a - be_word hi lo)))
      as [pr Hpr]; [lia |].
    rewrite (Hin2 _ pr Hpr), (Hin1 _ pr Hpr). reflexivity.
  - apply Hout2. lia.
Qed.

Lemma reload_is_idempotent_witness :
  read_image_file halt_image (read_image_file halt_image ∅)
  = read_image_file halt_image ∅.
Proof.
  apply (reload_is_idempotent x30 x00 [(xf0, x25); (x10, x21)] ∅);
    [discriminate | discriminate].
Defined.

(** ** Start-up, further *)

(** X9. When several images cannot be opened, the one reported is the first
    in command-line order; what follows it on the command line makes no
    difference (those files are never opened). *)
Theorem first_unreadable_image_is_reported
    (fs : filesystem) (prog p : string) (pre post : list string) :
  forallb (readable fs) pre = true ->
  fs p = None ->
  main_startup fs (prog :: pre ++ p :: post)
  = Exited 1 (load_failure_message p)
  /\ forall kbds, main fs (prog :: pre ++ p :: post) kbds
                  = Finished 1 (load_failure_message p).
Proof.
  intros Hpre Hp.
  assert (Hstart : main_startup fs (prog :: pre ++ p :: post)
                   = Exited 1 (load_failure_message p)).
  { unfold main_startup.
    change (drop 1 (prog :: pre ++ p :: post)) with (drop 0 (pre ++ p :: post)).
    rewrite drop_0. cbn [length]. rewrite length_app. cbn [length].
    replace (Z.of_nat (S (length pre + S (length post))) <? 2) with false
      by (symmetry; apply Z.ltb_ge; lia).
    by rewrite load_images_app_failure. }
  split; [exact Hstart |]. intros kbds. unfold main. by rewrite Hstart.
Qed.

Lemma first_unreadable_image_is_reported_witness :
  main_startup (image_fs halt_image)
    ["lc3"; "prog.obj"; "a.obj"; "prog.obj"; "b.obj"]%string
  = Exited 1 (load_failure_message "a.obj").
Proof.
  exact (proj1 (first_unreadable_image_is_reported (image_fs halt_image)
                  "lc3"%string "a.obj"%string ["prog.obj"%string]
                  ["prog.obj"; "b.obj"]%string eq_refl eq_refl)).
Defined.

Lemma load_images_all_readable (fs : filesystem) (paths : list string) :
  forall m : gmap Z Z,
    forallb (readable fs) paths = true ->
    load_images fs paths m = inr (load_all fs paths m).
Proof.
  induction paths as [| p paths IH]; intros m Hall; [reflexivity |].
  cbn [forallb] in Hall. apply andb_prop in Hall as [Hp Hall].
  cbn [load_images]. unfold load_all. cbn [fold_left].
  unfold read_image. unfold readable in Hp.
  destruct (fs p) as [file |]; [| discriminate Hp]. by apply IH.
Qed.

(** X10. When every image can be opened, the loop is entered on the memory
    obtained by loading the images one after the other, in command-line
    order, each over the result of the previous ones, starting from cleared
    memory. *)
Theorem images_load_in_order
    (fs : filesystem) (prog : string) (paths : list string) :
  paths <> [] ->
  forallb (readable fs) paths = true ->
  main_startup fs (prog :: paths) = Entered (initial_state (load_all fs paths ∅))
  /\ forall (p : string) (file : list byte),
       fs p = Some file ->
       load_all fs (paths ++ [p]) ∅ = read_image_file file (load_all fs paths ∅).
Proof.
  intros Hne Hall. split.
  - unfold main_startup. destruct paths as [| p0 paths]; [contradiction |].
    cbn [length drop].
    replace (Z.of_nat (S (S (length paths))) <? 2) with false
      by (symmetry; apply Z.ltb_ge; lia).
    by rewrite load_images_all_readable.
  - intros p file Hp. unfold load_all. rewrite fold_left_app. cbn [fold_left].
    by rewrite Hp.
Qed.

Lemma images_load_in_order_witness :
  main_startup (image_fs halt_image) ["lc3"; "prog.obj"; "prog.obj"]%string
  = Entered (initial_state
               (load_all (image_fs halt_image) ["prog.obj"; "prog.obj"]%string ∅)).
Proof.
  exact (proj1 (images_load_in_order (image_fs halt_image) "lc3"%string
                  ["prog.obj"; "prog.obj"]%string ltac:(discriminate) eq_refl)).
Defined.

(** ** Many iterations of the loop *)

Lemma run_steps_cons (k : poll) (kbds : list poll) (s : state) :
  run_steps (k :: kbds) s = run_steps kbds (step k s).
Proof. reflexivity. Qed.

Lemma main_loop_run_steps (kbds : list poll) :
  forall s : state,
    running s <> 0 -> main_loop kbds s = StillRunning (run_steps kbds s).
Proof.
  induction kbds as [| k kbds IH]; intros s Hrun.
  - cbn. destruct (Z.eqb_spec (running s) 0); [contradiction | reflexivity].
  - rewrite main_loop_cons, run_steps_cons by exact Hrun.
    apply IH. by rewrite step_running.
Qed.

Lemma run_steps_idle (kbds : list poll) :
  forall s : state, registers_idle s -> registers_idle (run_steps kbds s).
Proof.
  induction kbds as [| k kbds IH]; intros s Hidle; [exact Hidle |].
  rewrite run_steps_cons. by apply IH, step_idle.
Qed.

Lemma run_steps_pc (kbds : list poll) :
  forall s : state,
    length (reg s) = R_COUNT ->
    word16 (reg_get (reg s) R_PC) ->
    reg_get (reg (run_steps kbds s)) R_PC
    = wrap16 (reg_get (reg s) R_PC + Z.of_nat (length kbds)).
Proof.
  induction kbds as [| k kbds IH]; intros s Hlen Hpc.
  - cbn [run_steps fold_left length]. unfold wrap16, word16 in *.
    rewrite Z.add_0_r. symmetry. by apply Z.mod_small.
  - rewrite run_steps_cons, IH.
    + rewrite step_pc by exact Hlen. unfold wrap16.
      rewrite Zplus_mod_idemp_l. f_equal. cbn [length]. lia.
    + by rewrite step_reg_length.
    + rewrite step_pc by exact Hlen. apply Z.mod_pos_bound. reflexivity.
Qed.

(** X12. After any number [n] of iterations of a started program, the
    process is still in its loop, the program counter is 0x3000 + n modulo
    2^16, R0-R7 are all 0, the condition flag is ZRO, and nothing has been
    printed: the loop only walks the program counter through memory. *)
Theorem state_after_iterations
    (fs : filesystem) (argv : list string) (s0 : state) (kbds : list poll) :
  main_startup fs argv = Entered s0 ->
  main fs argv kbds = Unfinished (run_steps kbds s0)
  /\ reg_get (reg (run_steps kbds s0)) R_PC
     = wrap16 (PC_START + Z.of_nat (length kbds))
  /\ (forall i : nat, (i <= R_R7)%nat -> reg_get (reg (run_steps kbds s0)) i = 0)
  /\ reg_get (reg (run_steps kbds s0)) R_COND = FL_ZRO
  /\ stdout (run_steps kbds s0) = EmptyString.
Proof.
  intros Hstart. unfold main. rewrite Hstart.
  destruct (main_startup_entered _ _ _ Hstart) as [m ->].
  rewrite main_loop_run_steps by discriminate.
  destruct (run_steps_idle kbds _ (initial_state_idle m))
    as (_ & Hgp & Hcond & _ & Hout).
  split; [reflexivity |]. split; [| by repeat split].
  rewrite run_steps_pc; [reflexivity | reflexivity |].
  unfold word16. rewrite initial_state_pc. unfold PC_START. lia.
Qed.

Lemma state_after_iterations_witness :
  main_startup (image_fs halt_image) image_argv = Entered (entry_state halt_image)
  /\ reg_get (reg (run_steps [None; Some 65; None] (entry_state halt_image))) R_PC
     = 0x3003.
Proof.
  pose proof (main_startup_image halt_image) as Hstart.
  split; [exact Hstart |].
  exact (proj1 (proj2 (state_after_iterations _ _ _ [None; Some 65; None] Hstart))).
Defined.

(** X13. As long as the program counter stays below the keyboard status
    register, the loop fetches the memory cells one after the other from the
    program counter on, whatever the console answers, and leaves memory as
    it was.  From the start address this covers the first
    0xFE00 - 0x3000 iterations. *)
Theorem fetches_walk_memory (kbds : list poll) :
  forall s : state,
    length (reg s) = R_COUNT ->
    running s <> 0 ->
    0 <= reg_get (reg s) R_PC ->
    reg_get (reg s) R_PC + Z.of_nat (length kbds) <= MR_KBSR ->
    fetched kbds s
    = map (fun i : nat => cell (memory s) (reg_get (reg s) R_PC + Z.of_nat i))
          (seq 0 (length kbds))
    /\ memory (run_steps kbds s) = memory s.
Proof.
  induction kbds as [| k kbds IH]; intros s Hlen Hrun Hlow Hhigh.
  - split; [| reflexivity]. cbn.
    destruct (Z.eqb_spec (running s) 0); [contradiction | reflexivity].
  - cbn [length] in Hhigh. unfold MR_KBSR in Hhigh.
    assert (Hpc : reg_get (reg s) R_PC <> MR_KBSR) by (unfold MR_KBSR; lia).
    assert (Hnext : reg_get (reg (step k s)) R_PC = reg_get (reg s) R_PC + 1).
    { rewrite step_pc by exact Hlen. unfold wrap16. apply Z.mod_small. lia. }
    destruct (IH (step k s)) as [Hfetch Hmem].
    + by rewrite step_reg_length.
    + by rewrite step_running.
    + lia.
    + unfold MR_KBSR. lia.
    + rewrite fetched_cons, run_steps_cons by exact Hrun.
      rewrite Hfetch, Hmem, Hnext, step_memory_plain by exact Hpc.
      split; [| reflexivity].
      cbn [length seq map]. f_equal.
      * unfold fetch. rewrite mem_read_plain by exact Hpc.
        cbn [fst]. f_equal. lia.
      * rewrite <- seq_shift, map_map. apply map_ext. intros i.
        f_equal. lia.
Qed.

Lemma fetches_walk_memory_witness :
  fetched [Some 65; None] (entry_state halt_image) = [0xF025; 0x1021]
  /\ memory (run_steps [Some 65; None] (entry_state halt_image))
     = memory (entry_state halt_image).
Proof.
  destruct (fetches_walk_memory [Some 65; None] (entry_state halt_image))
    as [Hfetch Hmem];
    [reflexivity | discriminate | discriminate | discriminate |].
  split; [exact Hfetch | exact Hmem].
Defined.

(** ** Input buffering *)

(** X15. [disable_input_buffering] flips the two mode bits rather than
    clearing them: each of the echo and line-input bits of the console mode
    is inverted (so a bit that was off is turned on), every other bit is
    kept, pending input is discarded, and a following
    [restore_input_buffering] puts the mode back to what it was. *)
Theorem disable_input_buffering_toggles
    (echo line : Z) (g : buffering) (c : console) :
  0 <= echo -> 0 <= line -> echo <> line ->
  let after := disable_input_buffering (2 ^ echo) (2 ^ line) g c in
  (forall i : Z,
      Z.testbit (console_mode (snd after)) i
      = xorb (Z.testbit (console_mode c) i) ((i =? echo) || (i =? line)))
  /\ console_pending (snd after) = []
  /\ console_mode (restore_input_buffering (fst after) (snd after))
     = console_mode c.
Proof.
  intros Hecho Hline Hne after. unfold after, disable_input_buffering.
  cbn [fst snd console_mode console_pending restore_input_buffering
       hStdin fdwOldMode].
  split; [| split; reflexivity].
  intros i. rewrite !Z.lxor_spec, !Z.pow2_bits_eqb by assumption.
  rewrite (Z.eqb_sym echo i), (Z.eqb_sym line i).
  destruct (Z.eqb_spec i echo) as [-> | _].
  - destruct (Z.eqb_spec echo line) as [E | _]; [contradiction |].
    by destruct (Z.testbit (console_mode c) echo).
  - by destruct (Z.testbit (console_mode c) i), (i =? line).
Qed.

Lemma disable_input_buffering_toggles_witness :
  0 <= 2 /\ 0 <= 1 /\ 2 <> 1
  /\ console_mode (snd (disable_input_buffering (2 ^ 2) (2 ^ 1) buffering_start
                          {| console_mode := 0x1F1; console_pending := [65] |}))
     = 0x1F7
  /\ console_mode
       (restore_input_buffering
          (fst (disable_input_buffering (2 ^ 2) (2 ^ 1) buffering_start
                  {| console_mode := 0x1F1; console_pending := [65] |}))
          (snd (disable_input_buffering (2 ^ 2) (2 ^ 1) buffering_start
                  {| console_mode := 0x1F1; console_pending := [65] |})))
     = 0x1F1.
Proof.
  assert (He : 0 <= 2) by lia. assert (Hl : 0 <= 1) by lia.
  assert (Hne : 2 <> 1) by lia.
  destruct (disable_input_buffering_toggles 2 1 buffering_start
              {| console_mode := 0x1F1; console_pending := [65] |} He Hl Hne)
    as (_ & _ & Hback).
  split; [exact He |]. split; [exact Hl |]. split; [exact Hne |].
  split; [reflexivity | exact Hback].
Defined.
